(** * introspect: PostgreSQL catalog to TypeScript declarations

    A shallow embedding of [index.ts].  The script reads two result sets
    from [information_schema] (base tables, columns), maps every column to
    a TypeScript type node, builds one interface per table and one
    aggregate [Database] interface, prints them, prepends a header and
    formats the text.

    Conventions of the embedding:
    - the strings that the script reads (names, type names, flags) are
      [string]s, a character standing for the UTF-16 code unit of the
      same number, below 256; upper-casing leaves that range, so the
      strings that the script makes from names are lists of code units,
      [JS.utf16], in which [JS.units] embeds the former;
    - [toUpperCase] is the upper-casing of Unicode, special casing
      included, on these code units;
    - the nodes built through [ts.factory] are inductive values carrying
      the arguments that the script passes (arguments passed as
      [undefined], the end-of-file token and the node flags of the
      source file are left out);
    - [console.log] and [console.warn] append to a list of diagnostics;
    - [tableColumns], a JavaScript [Map], is a [gmap]; the script only
      ever calls [has], [set] and [get] on it;
    - the TypeScript printer and prettier are libraries outside the
      script: they are the parameters of the section [Emitter];
      [prettier.format] throws on a text that it cannot parse. *)

From Stdlib Require Import Ascii String NArith.
From stdpp Require Import base option list strings gmap fin_maps.

Local Open Scope string_scope.
Local Open Scope list_scope.
#[local] Set Warnings "-register-all".

(** ** JavaScript string primitives used by the script *)

Module JS.

(** A string given by its UTF-16 code units, and the embedding of the
    strings below 256. *)
Definition utf16 : Type := list N.

Definition units (s : string) : utf16 :=
  map N_of_ascii (list_ascii_of_string s).

(** [c.toUpperCase()] for a single code unit below 256: the letters
    [a]..[z] and [U+00E0]..[U+00FE] but the division sign move 32 down,
    the micro sign becomes [U+039C], the sharp s becomes [SS], the y
    with diaeresis becomes [U+0178]. *)
Definition upperUnit (c : ascii) : utf16 :=
  let n := N_of_ascii c in
  if ((97 <=? n) && (n <=? 122))%N then [(n - 32)%N]
  else if (n =? 181)%N then [924%N]
  else if (n =? 223)%N then [83%N; 83%N]
  else if (((224 <=? n) && (n <=? 246)) || ((248 <=? n) && (n <=? 254)))%N
       then [(n - 32)%N]
  else if (n =? 255)%N then [376%N]
  else [n].

(** [s.toUpperCase()]. *)
Fixpoint toUpperCase (s : string) : utf16 :=
  match s with
  | EmptyString => []
  | String c r => upperUnit c ++ toUpperCase r
  end.

(** [s.charAt(i)]: the one-character string at index [i], or the empty
    string when [i] is out of range. *)
Definition charAt (s : string) (i : nat) : string :=
  match String.get i s with
  | Some c => String c EmptyString
  | None => EmptyString
  end.

(** [s.slice(start)] for a non-negative [start]. *)
Fixpoint slice (s : string) (start : nat) {struct start} : string :=
  match start, s with
  | O, _ => s
  | S n, EmptyString => EmptyString
  | S n, String _ r => slice r n
  end.

(** [s.split(sep)] for a one-character separator: the empty string
    splits into one empty piece. *)
Fixpoint split (sep : ascii) (s : string) : list string :=
  match s with
  | EmptyString => [EmptyString]
  | String c r =>
      if Ascii.eqb c sep then EmptyString :: split sep r
      else match split sep r with
           | h :: t => String c h :: t
           | [] => [String c EmptyString]
           end
  end.

(** [l.join(sep)]. *)
Fixpoint join (sep : utf16) (l : list utf16) : utf16 :=
  match l with
  | [] => []
  | [x] => x
  | x :: r => x ++ sep ++ join sep r
  end.

End JS.

(** ** Syntax nodes built through [ts.factory] *)

Inductive SyntaxKind : Type :=
  | StringKeyword
  | NumberKeyword
  | BooleanKeyword
  | UnknownKeyword
  | NullKeyword
  | ExportKeyword.

Inductive TypeNode : Type :=
  | KeywordTypeNode (kind : SyntaxKind)
  | LiteralTypeNode (literal : SyntaxKind)
  | UnionTypeNode (types : list TypeNode)
  | TypeReferenceNode (typeName : JS.utf16).

Record PropertySignature : Type := createPropertySignature {
  prop_name : string;
  prop_type : TypeNode
}.

Record InterfaceDeclaration : Type := createInterfaceDeclaration {
  decl_modifiers : list SyntaxKind;
  decl_name : JS.utf16;
  decl_members : list PropertySignature
}.

Record SourceFile : Type := createSourceFile {
  statements : list InterfaceDeclaration
}.

(** ** Rows of the two catalog queries *)

Record Table : Type := mkTable { t_table_name : string }.

Record Column : Type := mkColumn {
  table_name : string;
  column_name : string;
  data_type : string;
  udt_name : string;
  is_nullable : string
}.

(** ** Diagnostics written to the console *)

Inductive Diag : Type :=
  | LogFetched (names : list string)
  | Warn (message : string)
  | LogDone.

(** Computations that write diagnostics, with stdpp's monad notations. *)
Definition Logged (A : Type) : Type := (A * list Diag)%type.

#[global] Instance Logged_ret : MRet Logged := fun A a => (a, []).

#[global] Instance Logged_bind : MBind Logged := fun A B k m =>
  let r := k m.1 in (r.1, (m.2 ++ r.2)%list).

#[global] Instance Logged_fmap : FMap Logged := fun A B f m => (f m.1, m.2).

Definition warn (message : string) : Logged unit := (tt, [Warn message]).

(** [cols.map(f)] for an [f] that may write diagnostics: the elements
    are visited from left to right. *)
Fixpoint mapLogged {A B} (f : A → Logged B) (l : list A) : Logged (list B) :=
  match l with
  | [] => mret []
  | x :: r => y ← f x; ys ← mapLogged f r; mret (y :: ys)
  end.

(** ** Type mapper *)

(** One group of [case] labels of a [switch] on strings. *)
Definition oneOf (labels : list string) (s : string) : bool :=
  existsb (String.eqb s) labels.

Definition getTypeNode (dataType udtName : string) (isNullable : bool)
  : Logged TypeNode :=
  baseType ←
    (if String.eqb udtName "uuid" then
       mret (KeywordTypeNode StringKeyword)
     else if String.eqb udtName "timestamptz" || String.eqb udtName "timestamp" then
       mret (KeywordTypeNode StringKeyword)
     else if String.eqb udtName "citext" then
       mret (KeywordTypeNode StringKeyword)
     else if oneOf ["character varying"; "text"; "bigint"; "character"] dataType then
       mret (KeywordTypeNode StringKeyword)
     else if oneOf ["integer"; "smallint"; "numeric"; "decimal"; "real";
                    "double precision"] dataType then
       mret (KeywordTypeNode NumberKeyword)
     else if oneOf ["boolean"] dataType then
       mret (KeywordTypeNode BooleanKeyword)
     else if oneOf ["date"] dataType then
       mret (KeywordTypeNode StringKeyword)
     else if oneOf ["json"; "jsonb"] dataType then
       mret (KeywordTypeNode UnknownKeyword)
     else if oneOf ["uuid"] dataType then
       mret (KeywordTypeNode StringKeyword)
     else
       warn ("Unknown type: " +:+ dataType +:+ " (" +:+ udtName +:+ ")");;
       mret (KeywordTypeNode UnknownKeyword));
  if isNullable then
    mret (UnionTypeNode [baseType; LiteralTypeNode NullKeyword])
  else
    mret baseType.

(** ** Interface names *)

Definition toPascalCase (str : string) : JS.utf16 :=
  JS.join []
    (map (fun word =>
            JS.toUpperCase (JS.charAt word 0) ++ JS.units (JS.slice word 1))
         (JS.split "_" str)).

(** ** Grouping the columns by table *)

(** One turn of the loop over [columns].  [tableColumns.get(..)!.push(..)]
    would throw on [undefined], hence the [option]. *)
Definition tableColumns_step (tableColumns : gmap string (list Column))
    (column : Column) : option (gmap string (list Column)) :=
  let tableColumns :=
    if bool_decide (is_Some (tableColumns !! table_name column))
    then tableColumns
    else <[table_name column := []]> tableColumns in
  cols ← tableColumns !! table_name column;
  Some (<[table_name column := (cols ++ [column])%list]> tableColumns).

Fixpoint tableColumns_loop (tableColumns : gmap string (list Column))
    (columns : list Column) : option (gmap string (list Column)) :=
  match columns with
  | [] => Some tableColumns
  | column :: rest =>
      tableColumns ← tableColumns_step tableColumns column;
      tableColumns_loop tableColumns rest
  end.

Definition tableColumns (columns : list Column)
  : option (gmap string (list Column)) :=
  tableColumns_loop ∅ columns.

(** ** Declarations *)

Definition property (col : Column) : Logged PropertySignature :=
  type ← getTypeNode (data_type col) (udt_name col)
                     (String.eqb (is_nullable col) "YES");
  mret (createPropertySignature (column_name col) type).

Definition properties (cols : list Column) : Logged (list PropertySignature) :=
  mapLogged property cols.

(** The body of the loop over [tables]; [get(..) || []] is [default []]
    since an array is never falsy. *)
Definition interfaceDecl (tableColumns : gmap string (list Column))
    (table : Table) : Logged InterfaceDeclaration :=
  let tableName := t_table_name table in
  let cols := default [] (tableColumns !! tableName) in
  properties ← properties cols;
  mret (createInterfaceDeclaration [ExportKeyword] (toPascalCase tableName)
          properties).

Definition interfaceDeclarations (tableColumns : gmap string (list Column))
    (tables : list Table) : Logged (list InterfaceDeclaration) :=
  mapLogged (interfaceDecl tableColumns) tables.

Definition databaseProperties (tables : list Table) : list PropertySignature :=
  map (fun table =>
         createPropertySignature (t_table_name table)
           (TypeReferenceNode (toPascalCase (t_table_name table))))
      tables.

Definition databaseInterface (tables : list Table) : InterfaceDeclaration :=
  createInterfaceDeclaration [ExportKeyword] (JS.units "Database")
    (databaseProperties tables).

(** What the script has built when it reaches the printer: the
    declarations of the source file and the warnings written so far. *)
Definition allDeclarations (tables : list Table) (columns : list Column)
  : option (Logged (list InterfaceDeclaration)) :=
  tableColumns ← tableColumns columns;
  Some (interfaceDeclarations ← interfaceDeclarations tableColumns tables;
        mret (interfaceDeclarations ++ [databaseInterface tables])%list).

Definition sourceFile (tables : list Table) (columns : list Column)
  : option (Logged SourceFile) :=
  declarations ← allDeclarations tables columns;
  Some (createSourceFile <$> declarations).

(** ** Printing, header, formatting, writing *)

Definition LFchar : ascii := ascii_of_nat 10.
Definition LF : string := String LFchar EmptyString.

(** The template literal that puts the header before the printed code;
    [now] is [new Date().toISOString()]. *)
Definition unformattedOutput (now : string) (generatedCode : JS.utf16)
  : JS.utf16 :=
  JS.units ("// Generated by introspect on " +:+ now +:+ LF +:+
            "// DO NOT EDIT - This file is auto-generated" +:+ LF +:+
            LF) ++
  generatedCode.

Definition outputPath : string := "schema.d.ts".

(** How a run ends: at its last line, or on an exception that nothing
    catches. *)
Inductive Exit : Type :=
  | Completed
  | Uncaught.

(** What a run leaves behind: the console, the files written and the way
    it ended. *)
Record Outcome : Type := mkOutcome {
  console : list Diag;
  written : list (string * JS.utf16);
  exit : Exit
}.

Section Emitter.

(** [printer.printFile] of the TypeScript compiler (line feed as new
    line) and [prettier.format] with the options of the script, [None]
    when it throws. *)
Variable printFile : SourceFile → JS.utf16.
Variable format : JS.utf16 → option JS.utf16.

(** The script from top to bottom.  The table names are logged before
    anything else; an exception ends the run where it is thrown, without
    the file and without the final message. *)
Definition main (now : string) (tables : list Table) (columns : list Column)
  : Outcome :=
  let fetched := LogFetched (map t_table_name tables) in
  match sourceFile tables columns with
  | None => mkOutcome [fetched] [] Uncaught
  | Some built =>
      let generatedCode := printFile built.1 in
      match format (unformattedOutput now generatedCode) with
      | None => mkOutcome (fetched :: built.2) [] Uncaught
      | Some formattedOutput =>
          mkOutcome (fetched :: built.2 ++ [LogDone])
                    [(outputPath, formattedOutput)] Completed
      end
  end.

End Emitter.

(** * Vocabulary of the properties *)

(** The rows of [columns] that belong to a table, in the order of the
    query result. *)
Definition columnsOf (tableName : string) (columns : list Column) : list Column :=
  filter (fun c => table_name c = tableName) columns.

(** The field generated for a column and the interface generated for a
    table, written without the intermediate [Map]. *)
Definition fieldOf (col : Column) : PropertySignature := (property col).1.

Definition tableInterface (columns : list Column) (table : Table)
  : InterfaceDeclaration :=
  createInterfaceDeclaration [ExportKeyword]
    (toPascalCase (t_table_name table))
    (map fieldOf (columnsOf (t_table_name table) columns)).

Definition tableWarnings (columns : list Column) (table : Table) : list Diag :=
  concat (map (fun col => (property col).2)
              (columnsOf (t_table_name table) columns)).

Definition nullMarker : TypeNode := LiteralTypeNode NullKeyword.

Definition isNull (t : TypeNode) : bool :=
  match t with
  | LiteralTypeNode NullKeyword => true
  | _ => false
  end.

(** A union with a null member. *)
Definition hasNullMember (t : TypeNode) : bool :=
  match t with
  | UnionTypeNode types => existsb isNull types
  | _ => false
  end.

(** Removes the null members of a union; a union left with one member is
    that member. *)
Definition stripNull (t : TypeNode) : TypeNode :=
  match t with
  | UnionTypeNode types =>
      match List.filter (fun m => negb (isNull m)) types with
      | [m] => m
      | ms => UnionTypeNode ms
      end
  | _ => t
  end.

(** The storage types of the first three tests and the labels of the
    [switch]. *)
Definition identityStorageTypes : list string :=
  ["uuid"; "timestamptz"; "timestamp"; "citext"].

Definition handledDeclaredTypes : list string :=
  ["character varying"; "text"; "bigint"; "character";
   "integer"; "smallint"; "numeric"; "decimal"; "real"; "double precision";
   "boolean"; "date"; "json"; "jsonb"; "uuid"].

Definition recognised (dataType udtName : string) : bool :=
  oneOf identityStorageTypes udtName || oneOf handledDeclaredTypes dataType.

Definition unknownTypeWarning (dataType udtName : string) : Diag :=
  Warn ("Unknown type: " +:+ dataType +:+ " (" +:+ udtName +:+ ")").

(** The upper-casing of the Unicode standard for the code points below
    256: the simple mappings of [UnicodeData.txt] and, for the sharp s,
    the full mapping of [SpecialCasing.txt].  A code point without entry
    is its own upper case. *)
Definition unicodeUpper : list (N * list N) := (
  [(97, [65]); (98, [66]); (99, [67]); (100, [68]); (101, [69]);
   (102, [70]); (103, [71]); (104, [72]); (105, [73]); (106, [74]);
   (107, [75]); (108, [76]); (109, [77]); (110, [78]); (111, [79]);
   (112, [80]); (113, [81]); (114, [82]); (115, [83]); (116, [84]);
   (117, [85]); (118, [86]); (119, [87]); (120, [88]); (121, [89]);
   (122, [90]); (181, [924]); (223, [83; 83]); (224, [192]); (225, [193]);
   (226, [194]); (227, [195]); (228, [196]); (229, [197]); (230, [198]);
   (231, [199]); (232, [200]); (233, [201]); (234, [202]); (235, [203]);
   (236, [204]); (237, [205]); (238, [206]); (239, [207]); (240, [208]);
   (241, [209]); (242, [210]); (243, [211]); (244, [212]); (245, [213]);
   (246, [214]); (248, [216]); (249, [217]); (250, [218]); (251, [219]);
   (252, [220]); (253, [221]); (254, [222]); (255, [376])])%N.

Definition uppercase (n : N) : list N :=
  match List.find (fun entry => N.eqb entry.1 n) unicodeUpper with
  | Some entry => entry.2
  | None => [n]
  end.

(** The transform in the words of the specification: a segment with its
    first character in upper case and the rest unchanged, and the
    concatenation of a list of segments. *)
Definition capitalize (segment : string) : JS.utf16 :=
  match segment with
  | EmptyString => []
  | String c rest => uppercase (N_of_ascii c) ++ JS.units rest
  end.

Definition concatenate (segments : list JS.utf16) : JS.utf16 :=
  concat segments.

Fixpoint contains (c : ascii) (s : string) : bool :=
  match s with
  | EmptyString => false
  | String c' rest => Ascii.eqb c' c || contains c rest
  end.

(** A name is cut into segments when it is the segments joined by
    underscores and no segment has an underscore. *)
Definition segmentsOf (name : string) (segments : list string) : Prop :=
  segments ≠ [] ∧
  Forall (fun segment => contains "_" segment = false) segments ∧
  name = String.concat "_" segments.



Fixpoint onlyUnderscores (s : string) : bool :=
  match s with
  | EmptyString => true
  | String c rest => Ascii.eqb c "_" && onlyUnderscores rest
  end.

(** The keywords that the mapper uses for a base type. *)
Definition baseKind (kind : SyntaxKind) : bool :=
  match kind with
  | StringKeyword | NumberKeyword | BooleanKeyword | UnknownKeyword => true
  | NullKeyword | ExportKeyword => false
  end.


(** * Properties *)

(** ** Diagnostics monad *)

Lemma Logged_bind_fst {A B} (m : Logged A) (k : A → Logged B) :
  (m ≫= k).1 = (k m.1).1.
Proof. reflexivity. Qed.

Lemma Logged_bind_snd {A B} (m : Logged A) (k : A → Logged B) :
  (m ≫= k).2 = (m.2 ++ (k m.1).2)%list.
Proof. reflexivity. Qed.

Lemma mapLogged_fst {A B} (f : A → Logged B) (l : list A) :
  (mapLogged f l).1 = map (fun x => (f x).1) l.
Proof.
  induction l as [|x l IH]; [done|].
  cbn [mapLogged]. rewrite !Logged_bind_fst. cbn. by rewrite IH.
Qed.

Lemma mapLogged_snd {A B} (f : A → Logged B) (l : list A) :
  (mapLogged f l).2 = concat (map (fun x => (f x).2) l).
Proof.
  induction l as [|x l IH]; [done|].
  cbn [mapLogged]. rewrite !Logged_bind_snd. cbn.
  by rewrite app_nil_r, IH.
Qed.

(** ** Grouping *)

Lemma tableColumns_step_lookup (m : gmap string (list Column)) (c : Column) :
  ∃ m', tableColumns_step m c = Some m' ∧
    ∀ k, m' !! k =
           if decide (table_name c = k)
           then Some (default [] (m !! k) ++ [c])
           else m !! k.
Proof.
  unfold tableColumns_step.
  destruct (m !! table_name c) as [cols|] eqn:Hm.
  - rewrite bool_decide_eq_true_2 by eauto. rewrite Hm. cbn.
    eexists; split; [done|]. intros k. rewrite lookup_insert.
    destruct (decide (table_name c = k)) as [<-|]; [by rewrite Hm|done].
  - rewrite bool_decide_eq_false_2 by (by intros [? ?]).
    rewrite lookup_insert_eq. cbn.
    eexists; split; [done|]. intros k. rewrite lookup_insert.
    destruct (decide (table_name c = k)) as [<-|Hne]; [by rewrite Hm|].
    by rewrite lookup_insert_ne.
Qed.

Lemma tableColumns_loop_lookup (columns : list Column) :
  ∀ m : gmap string (list Column),
  ∃ m', tableColumns_loop m columns = Some m' ∧
    ∀ k, m' !! k =
           match columnsOf k columns with
           | [] => m !! k
           | cols => Some (default [] (m !! k) ++ cols)
           end.
Proof.
  induction columns as [|c columns IH]; intros m.
  - exists m. by split.
  - destruct (tableColumns_step_lookup m c) as (m1 & Hstep & Hm1).
    destruct (IH m1) as (m' & Hloop & Hm').
    exists m'. split; [cbn; by rewrite Hstep|].
    intros k. rewrite Hm', Hm1. unfold columnsOf. rewrite filter_cons.
    destruct (decide (table_name c = k)) as [Heq|Hne].
    + destruct (filter _ columns) as [|c' cols']; cbn; [done|].
      by rewrite <- app_assoc.
    + done.
Qed.

(** The loop never throws, and [get(tableName) || []] reads the rows of
    that table. *)
Lemma tableColumns_get (columns : list Column) :
  ∃ m, tableColumns columns = Some m ∧
    ∀ k, default [] (m !! k) = columnsOf k columns.
Proof.
  destruct (tableColumns_loop_lookup columns ∅) as (m & Hm & Hlook).
  exists m. split; [done|]. intros k. rewrite Hlook, lookup_empty.
  by destruct (columnsOf k columns).
Qed.

(** ** The declarations, read off the two result sets *)

Lemma interfaceDecl_eq (m : gmap string (list Column)) (columns : list Column)
    (table : Table) :
  (∀ k, default [] (m !! k) = columnsOf k columns) →
  interfaceDecl m table = (tableInterface columns table, tableWarnings columns table).
Proof.
  intros Hm. unfold interfaceDecl, properties. rewrite Hm.
  apply injective_projections.
  - rewrite Logged_bind_fst. cbn. unfold tableInterface.
    by rewrite mapLogged_fst.
  - rewrite Logged_bind_snd. cbn. rewrite app_nil_r.
    by rewrite mapLogged_snd.
Qed.

Lemma allDeclarations_eq (tables : list Table) (columns : list Column) :
  allDeclarations tables columns =
    Some (map (tableInterface columns) tables ++ [databaseInterface tables],
          concat (map (tableWarnings columns) tables)).
Proof.
  destruct (tableColumns_get columns) as (m & Hm & Hget).
  unfold allDeclarations. rewrite Hm. cbn. f_equal.
  unfold interfaceDeclarations.
  apply injective_projections.
  - rewrite Logged_bind_fst. cbn. rewrite mapLogged_fst. f_equal.
    apply map_ext. intros t. by rewrite (interfaceDecl_eq m columns).
  - rewrite Logged_bind_snd. cbn. rewrite app_nil_r, mapLogged_snd. f_equal.
    apply map_ext. intros t. by rewrite (interfaceDecl_eq m columns).
Qed.


(** ** Type mapper *)

Ltac case_eqb :=
  repeat match goal with
    | |- context [String.eqb ?a ?b] =>
        destruct (String.eqb a b) eqn:?; cbn; try done
    end.

Lemma getTypeNode_nullable (dataType udtName : string) (isNullable : bool) :
  getTypeNode dataType udtName isNullable =
    ((if isNullable
      then UnionTypeNode [(getTypeNode dataType udtName false).1; nullMarker]
      else (getTypeNode dataType udtName false).1),
     (getTypeNode dataType udtName false).2).
Proof.
  unfold getTypeNode.
  match goal with |- context [mbind _ ?m] => generalize m end.
  intros [baseType w]. destruct isNullable; cbn; by rewrite app_nil_r.
Qed.

Lemma getTypeNode_keyword (dataType udtName : string) :
  ∃ kind, (getTypeNode dataType udtName false).1 = KeywordTypeNode kind.
Proof.
  unfold getTypeNode, oneOf. cbn. case_eqb; by eexists.
Qed.

Lemma getTypeNode_recognised (dataType udtName : string) :
  recognised dataType udtName = true →
  (getTypeNode dataType udtName false).2 = [].
Proof.
  unfold getTypeNode, recognised, oneOf. cbn. case_eqb.
Qed.

Lemma getTypeNode_unrecognised (dataType udtName : string) :
  recognised dataType udtName = false →
  getTypeNode dataType udtName false =
    (KeywordTypeNode UnknownKeyword, [unknownTypeWarning dataType udtName]).
Proof.
  unfold getTypeNode, recognised, oneOf. cbn. case_eqb.
Qed.

Lemma getTypeNode_identity (dataType udtName : string) :
  oneOf identityStorageTypes udtName = true →
  getTypeNode dataType udtName false = (KeywordTypeNode StringKeyword, []).
Proof.
  unfold getTypeNode, oneOf. cbn. case_eqb.
Qed.

Lemma getTypeNode_no_null_member (declaredType storageType : string) :
  hasNullMember (getTypeNode declaredType storageType false).1 = false.
Proof.
  destruct (getTypeNode_keyword declaredType storageType) as [kind Hk].
  by rewrite Hk.
Qed.

(** C3. Nullability wrapping: for every declared and storage type, the
    node mapped with [isNullable = false] is not a union with a null
    member; the node mapped with [isNullable = true] is the union of
    exactly that node and the null marker, so that removing the null
    member gives the non-nullable node back. *)
Theorem nullability_wrapping (declaredType storageType : string) :
  hasNullMember (getTypeNode declaredType storageType false).1 = false ∧
  (getTypeNode declaredType storageType true).1 =
    UnionTypeNode [(getTypeNode declaredType storageType false).1; nullMarker] ∧
  stripNull (getTypeNode declaredType storageType true).1 =
    (getTypeNode declaredType storageType false).1.
Proof.
  destruct (getTypeNode_keyword declaredType storageType) as [kind Hk].
  rewrite (getTypeNode_nullable _ _ true), Hk. by cbn.
Qed.

Lemma getTypeNode_identity_nullable (dataType udtName : string) (isNullable : bool) :
  oneOf identityStorageTypes udtName = true →
  getTypeNode dataType udtName isNullable =
    ((if isNullable
      then UnionTypeNode [KeywordTypeNode StringKeyword; nullMarker]
      else KeywordTypeNode StringKeyword),
     []).
Proof. intros Hs. by rewrite getTypeNode_nullable, getTypeNode_identity. Qed.

(** C5. When the storage type is [uuid], [timestamptz], [timestamp] or
    [citext], the base type is the string keyword whatever the declared
    type is: the result does not depend on the declared type and the
    [switch], with its warning, is not reached. *)
Theorem identity_storage_types (declaredType storageType : string)
    (nullable : bool) :
  storageType = "uuid" ∨ storageType = "timestamptz" ∨
  storageType = "timestamp" ∨ storageType = "citext" →
  getTypeNode declaredType storageType nullable =
    ((if nullable
      then UnionTypeNode [KeywordTypeNode StringKeyword; nullMarker]
      else KeywordTypeNode StringKeyword),
     []).
Proof.
  intros Hs. apply getTypeNode_identity_nullable.
  by destruct Hs as [-> | [-> | [-> | ->]]].
Qed.

Lemma identity_storage_types_witness :
  getTypeNode "integer" "uuid" false = (KeywordTypeNode StringKeyword, []) ∧
  getTypeNode "point" "citext" true =
    (UnionTypeNode [KeywordTypeNode StringKeyword; nullMarker], []).
Proof.
  split.
  - apply (identity_storage_types "integer" "uuid" false). by left.
  - apply (identity_storage_types "point" "citext" true). by repeat right.
Defined.

(** ** Fields of the generated interfaces *)

Lemma fieldOf_eq (col : Column) :
  fieldOf col =
    createPropertySignature (column_name col)
      (getTypeNode (data_type col) (udt_name col)
                   (String.eqb (is_nullable col) "YES")).1.
Proof. reflexivity. Qed.

Lemma property_warnings (col : Column) :
  (property col).2 = (getTypeNode (data_type col) (udt_name col) false).2.
Proof.
  unfold property. rewrite Logged_bind_snd. cbn. rewrite app_nil_r.
  by rewrite getTypeNode_nullable.
Qed.

Lemma elem_of_map {A B} (f : A → B) (l : list A) (x : A) :
  x ∈ l → f x ∈ map f l.
Proof. rewrite !list_elem_of_In. apply in_map. Qed.

Lemma elem_of_columnsOf (columns : list Column) (col : Column) (k : string) :
  col ∈ columns → table_name col = k → col ∈ columnsOf k columns.
Proof. intros. unfold columnsOf. by apply list_elem_of_filter. Qed.

Lemma elem_of_tableWarnings (tables : list Table) (columns : list Column)
    (table : Table) (col : Column) (w : Diag) :
  table ∈ tables → col ∈ columns → table_name col = t_table_name table →
  w ∈ (property col).2 →
  w ∈ concat (map (tableWarnings columns) tables).
Proof.
  intros Ht Hc Hn Hw. rewrite list_elem_of_In. apply in_concat.
  exists (tableWarnings columns table). split.
  - apply in_map. by rewrite <- list_elem_of_In.
  - unfold tableWarnings. apply in_concat. exists (property col).2. split.
    + apply (in_map (fun col => (property col).2)). rewrite <- list_elem_of_In.
      by apply elem_of_columnsOf.
    + by rewrite <- list_elem_of_In.
Qed.

(** C4. The mapper is a total function: every triple gives a node, a
    keyword or the union of a keyword with the null marker.  A pair that
    no test and no [case] label recognises gives the unknown keyword and
    one warning that names the pair; a recognised pair gives no warning.
    The field of such a column is generated like any other: every column
    of a listed table has its field in the interface of that table, and
    its warning, if any, is on the console.  So a column of declared and
    storage type [point] gives a field of type [unknown]. *)
Theorem unknown_types_fall_back :
  (∀ declaredType storageType nullable,
     ∃ kind,
       (getTypeNode declaredType storageType nullable).1 =
         if nullable then UnionTypeNode [KeywordTypeNode kind; nullMarker]
         else KeywordTypeNode kind) ∧
  (∀ declaredType storageType nullable,
     recognised declaredType storageType = false →
     getTypeNode declaredType storageType nullable =
       ((if nullable
         then UnionTypeNode [KeywordTypeNode UnknownKeyword; nullMarker]
         else KeywordTypeNode UnknownKeyword),
        [Warn ("Unknown type: " +:+ declaredType +:+ " (" +:+ storageType +:+ ")")])) ∧
  (∀ declaredType storageType nullable,
     recognised declaredType storageType = true →
     (getTypeNode declaredType storageType nullable).2 = []) ∧
  (∀ tables columns table col,
     table ∈ tables → col ∈ columns →
     table_name col = t_table_name table →
     ∃ declarations warnings declaration,
       allDeclarations tables columns = Some (declarations, warnings) ∧
       declaration ∈ declarations ∧
       decl_name declaration = toPascalCase (t_table_name table) ∧
       createPropertySignature (column_name col)
         (getTypeNode (data_type col) (udt_name col)
                      (String.eqb (is_nullable col) "YES")).1
         ∈ decl_members declaration ∧
       (recognised (data_type col) (udt_name col) = false →
        Warn ("Unknown type: " +:+ data_type col +:+ " (" +:+ udt_name col +:+ ")")
          ∈ warnings)) ∧
  allDeclarations [mkTable "places"]
                  [mkColumn "places" "location" "point" "point" "NO"] =
    Some ([createInterfaceDeclaration [ExportKeyword] (JS.units "Places")
             [createPropertySignature "location"
                (KeywordTypeNode UnknownKeyword)];
           createInterfaceDeclaration [ExportKeyword] (JS.units "Database")
             [createPropertySignature "places"
                (TypeReferenceNode (JS.units "Places"))]],
          [Warn "Unknown type: point (point)"]).
Proof.
  repeat split.
  - intros d u n. destruct (getTypeNode_keyword d u) as [kind Hk].
    exists kind. rewrite getTypeNode_nullable, Hk. by destruct n.
  - intros d u n Hr. by rewrite getTypeNode_nullable, getTypeNode_unrecognised.
  - intros d u n Hr. by rewrite getTypeNode_nullable, getTypeNode_recognised.
  - intros tables columns table col Ht Hc Hn.
    eexists _, _, (tableInterface columns table).
    split; [apply allDeclarations_eq|].
    split; [apply elem_of_app; left; by apply elem_of_map|].
    split; [done|]. split.
    + cbn. rewrite <- fieldOf_eq. apply elem_of_map.
      by apply elem_of_columnsOf.
    + intros Hr. apply (elem_of_tableWarnings tables columns table col); try done.
      rewrite property_warnings, getTypeNode_unrecognised by done.
      apply list_elem_of_singleton. reflexivity.
Qed.

Lemma unknown_types_fall_back_witness :
  getTypeNode "point" "point" false =
    (KeywordTypeNode UnknownKeyword, [Warn "Unknown type: point (point)"]) ∧
  getTypeNode "geometry" "geometry" true =
    (UnionTypeNode [KeywordTypeNode UnknownKeyword; nullMarker],
     [Warn "Unknown type: geometry (geometry)"]).
Proof.
  destruct unknown_types_fall_back as (_ & Hunknown & _).
  split.
  - apply (Hunknown "point" "point" false). reflexivity.
  - apply (Hunknown "geometry" "geometry" true). reflexivity.
Defined.

(** C6. Field order: the interface generated for a table has one field
    per row of the column query that carries the name of that table, in
    the order of the query result; the [Map] that groups the rows keeps,
    under each table name, the rows of that table in that order. *)
Theorem field_order_preserved (tables : list Table) (columns : list Column) :
  ∃ interfaces warnings,
    allDeclarations tables columns =
      Some (interfaces ++ [databaseInterface tables], warnings) ∧
    map (fun d => map prop_name (decl_members d)) interfaces =
      map (fun table =>
             map column_name
               (filter (fun c => table_name c = t_table_name table) columns))
          tables ∧
    map decl_members interfaces =
      map (fun table =>
             map (fun col =>
                    createPropertySignature (column_name col)
                      (getTypeNode (data_type col) (udt_name col)
                                   (String.eqb (is_nullable col) "YES")).1)
               (filter (fun c => table_name c = t_table_name table) columns))
          tables ∧
    ∃ grouped,
      tableColumns columns = Some grouped ∧
      ∀ tableName,
        default [] (grouped !! tableName) =
          filter (fun c => table_name c = tableName) columns.
Proof.
  eexists _, _. split; [apply allDeclarations_eq|].
  rewrite !map_map. cbn. split; [|split].
  - apply map_ext. intros table. by rewrite map_map.
  - done.
  - apply tableColumns_get.
Qed.

(** C10. A column is nullable exactly when [is_nullable] is the string
    [YES]: the type of every generated field is the union of the
    non-nullable node with the null marker in that case, and the
    non-nullable node, which has no null member, for every other value
    of [is_nullable]. *)
Theorem nullable_iff_YES (tables : list Table) (columns : list Column) :
  ∃ interfaces warnings,
    allDeclarations tables columns =
      Some (interfaces ++ [databaseInterface tables], warnings) ∧
    map decl_members interfaces =
      map (fun table =>
             map (fun col =>
                    let base :=
                      (getTypeNode (data_type col) (udt_name col) false).1 in
                    createPropertySignature (column_name col)
                      (if decide (is_nullable col = "YES")
                       then UnionTypeNode [base; nullMarker]
                       else base))
               (columnsOf (t_table_name table) columns))
          tables ∧
    ∀ col : Column,
      hasNullMember (getTypeNode (data_type col) (udt_name col) false).1 = false ∧
      ∀ other, other ≠ "YES" →
        (getTypeNode (data_type col) (udt_name col) (String.eqb other "YES")).1 =
        (getTypeNode (data_type col) (udt_name col) false).1.
Proof.
  eexists _, _. split; [apply allDeclarations_eq|].
  rewrite !map_map. cbn. split.
  - apply map_ext. intros table. apply map_ext. intros col.
    rewrite fieldOf_eq, getTypeNode_nullable. cbn. f_equal.
    destruct (decide (is_nullable col = "YES")) as [->|Hne]; [done|].
    apply String.eqb_neq in Hne. by rewrite Hne.
  - intros col. split; [apply getTypeNode_no_null_member|].
    intros other Hne. apply String.eqb_neq in Hne. by rewrite Hne.
Qed.

Lemma nullable_iff_YES_witness :
  (getTypeNode "text" "text" (String.eqb "NO" "YES")).1 =
    (getTypeNode "text" "text" false).1 ∧
  (getTypeNode "text" "text" (String.eqb "yes" "YES")).1 =
    (getTypeNode "text" "text" false).1 ∧
  (getTypeNode "text" "text" (String.eqb "" "YES")).1 =
    (getTypeNode "text" "text" false).1.
Proof.
  destruct (nullable_iff_YES [] []) as (_ & _ & _ & _ & H).
  pose proof (H (mkColumn "t" "c" "text" "text" "NO")) as [_ Hother].
  cbn [data_type udt_name] in Hother.
  split; [|split]; apply Hother; discriminate.
Defined.

(** ** The aggregate declaration *)

Lemma fieldOf_not_reference (col : Column) (typeName : JS.utf16) :
  prop_type (fieldOf col) ≠ TypeReferenceNode typeName.
Proof.
  rewrite fieldOf_eq. cbn. rewrite getTypeNode_nullable. cbn.
  destruct (getTypeNode_keyword (data_type col) (udt_name col)) as [k ->].
  by destruct (String.eqb _ _).
Qed.

Lemma tableInterface_not_database (tables : list Table) (columns : list Column)
    (table : Table) :
  table ∈ tables → tableInterface columns table ≠ databaseInterface tables.
Proof.
  intros Hin Heq. apply (f_equal decl_members) in Heq. cbn in Heq.
  destruct tables as [|t tables]; [by apply not_elem_of_nil in Hin|].
  destruct (columnsOf _ columns) as [|col cols]; [done|].
  pose proof (f_equal (fun l => prop_type <$> head l) Heq) as Hhead.
  injection Hhead as Hhead. exact (fieldOf_not_reference col _ Hhead).
Qed.

(** C2. Completeness: the declarations are one interface per fetched
    table, in the order of the table list and named by the PascalCase of
    the table name, followed by the one [Database] declaration; that
    declaration has one field per fetched table, in the same order, keyed
    by the table name as fetched and referring to the interface of the
    table by its name; no table interface is the [Database] declaration. *)
Theorem one_interface_per_table (tables : list Table) (columns : list Column) :
  ∃ interfaces warnings,
    allDeclarations tables columns =
      Some (interfaces ++ [databaseInterface tables], warnings) ∧
    length interfaces = length tables ∧
    map decl_name interfaces =
      map (fun table => toPascalCase (t_table_name table)) tables ∧
    Forall (fun d => d ≠ databaseInterface tables) interfaces ∧
    decl_name (databaseInterface tables) = JS.units "Database" ∧
    length (decl_members (databaseInterface tables)) = length tables ∧
    map prop_name (decl_members (databaseInterface tables)) =
      map t_table_name tables ∧
    map prop_type (decl_members (databaseInterface tables)) =
      map (fun d => TypeReferenceNode (decl_name d)) interfaces.
Proof.
  eexists _, _. split; [apply allDeclarations_eq|].
  unfold databaseInterface, databaseProperties. cbn.
  rewrite !length_map, !map_map. cbn.
  repeat split.
  apply Forall_forall. intros d Hd. apply list_elem_of_In, in_map_iff in Hd.
  destruct Hd as (table & <- & Hin).
  apply tableInterface_not_database. by apply list_elem_of_In.
Qed.

(** ** Rows of unlisted tables *)

Lemma columnsOf_insert (k : string) (c : Column) (pre post : list Column) :
  table_name c ≠ k →
  columnsOf k (pre ++ c :: post) = columnsOf k (pre ++ post).
Proof.
  intros Hne. unfold columnsOf. rewrite !filter_app. f_equal.
  by rewrite filter_cons_False.
Qed.

(** C9. A row of the column query whose table name is the name of no
    fetched table changes nothing: with or without it, the declarations
    and the warnings are the same, and so are the console and the file
    written by a run. *)
Theorem unlisted_columns_ignored (printFile : SourceFile → JS.utf16)
    (format : JS.utf16 → option JS.utf16) (now : string) (tables : list Table)
    (pre post : list Column) (c : Column) :
  (∀ table, table ∈ tables → t_table_name table ≠ table_name c) →
  allDeclarations tables (pre ++ c :: post) = allDeclarations tables (pre ++ post) ∧
  main printFile format now tables (pre ++ c :: post) =
    main printFile format now tables (pre ++ post).
Proof.
  intros Hc.
  assert (allDeclarations tables (pre ++ c :: post) =
          allDeclarations tables (pre ++ post)) as Heq.
  { rewrite !allDeclarations_eq. f_equal. f_equal.
    - f_equal. apply map_ext_in. intros table Hin.
      unfold tableInterface. rewrite columnsOf_insert; [done|].
      intros Heq. by apply (Hc table); [apply list_elem_of_In|].
    - f_equal. apply map_ext_in. intros table Hin.
      unfold tableWarnings. rewrite columnsOf_insert; [done|].
      intros Heq. by apply (Hc table); [apply list_elem_of_In|]. }
  split; [done|]. unfold main, sourceFile. by rewrite Heq.
Qed.

Lemma unlisted_columns_ignored_witness :
  allDeclarations [mkTable "users"]
    ([mkColumn "users" "id" "uuid" "uuid" "NO"] ++
     mkColumn "active_users" "id" "uuid" "uuid" "NO" ::
     [mkColumn "users" "name" "text" "text" "YES"]) =
  allDeclarations [mkTable "users"]
    ([mkColumn "users" "id" "uuid" "uuid" "NO"] ++
     [mkColumn "users" "name" "text" "text" "YES"]).
Proof.
  apply (unlisted_columns_ignored (fun _ => []) (fun s => Some s) "" [mkTable "users"]).
  intros table Hin. apply list_elem_of_singleton in Hin. subst table.
  cbn. discriminate.
Defined.

(** ** The example of the specification *)

Lemma getTypeNode_text (udtName : string) (isNullable : bool) :
  getTypeNode "text" udtName isNullable =
    ((if isNullable
      then UnionTypeNode [KeywordTypeNode StringKeyword; nullMarker]
      else KeywordTypeNode StringKeyword),
     []).
Proof.
  rewrite getTypeNode_nullable.
  assert (getTypeNode "text" udtName false = (KeywordTypeNode StringKeyword, []))
    as ->; [|done].
  unfold getTypeNode, oneOf. cbn. case_eqb.
Qed.

(** C1. One base table [user_accounts] whose columns are, in ordinal
    order, [id] (storage type [uuid], not nullable), [email] (storage
    type [citext], not nullable), [bio] (declared type [text], nullable)
    and [created_at] (storage type [timestamptz], not nullable): the
    declarations are the exported interface [UserAccounts] with the
    fields [id: string], [email: string], [bio: string | null] and
    [created_at: string] in that order, followed by the exported
    interface [Database] with the one field [user_accounts: UserAccounts];
    no warning is written.  The types that the scenario leaves open are
    arbitrary. *)
Theorem example_user_accounts
    (idDeclared emailDeclared bioStorage createdDeclared : string) :
  allDeclarations
    [mkTable "user_accounts"]
    [mkColumn "user_accounts" "id" idDeclared "uuid" "NO";
     mkColumn "user_accounts" "email" emailDeclared "citext" "NO";
     mkColumn "user_accounts" "bio" "text" bioStorage "YES";
     mkColumn "user_accounts" "created_at" createdDeclared "timestamptz" "NO"] =
  Some
    ([createInterfaceDeclaration [ExportKeyword] (JS.units "UserAccounts")
        [createPropertySignature "id" (KeywordTypeNode StringKeyword);
         createPropertySignature "email" (KeywordTypeNode StringKeyword);
         createPropertySignature "bio"
           (UnionTypeNode [KeywordTypeNode StringKeyword;
                           LiteralTypeNode NullKeyword]);
         createPropertySignature "created_at" (KeywordTypeNode StringKeyword)];
      createInterfaceDeclaration [ExportKeyword] (JS.units "Database")
        [createPropertySignature "user_accounts"
           (TypeReferenceNode (JS.units "UserAccounts"))]],
     []).
Proof.
  rewrite allDeclarations_eq.
  unfold tableInterface, tableWarnings, columnsOf.
  cbn [map t_table_name].
  rewrite !filter_cons_True by reflexivity. rewrite filter_nil.
  cbn [map concat]. unfold fieldOf, property. cbn [data_type udt_name is_nullable column_name].
  rewrite !Logged_bind_fst, !Logged_bind_snd.
  rewrite (getTypeNode_text bioStorage).
  rewrite !(getTypeNode_identity_nullable idDeclared "uuid"),
          !(getTypeNode_identity_nullable emailDeclared "citext"),
          !(getTypeNode_identity_nullable createdDeclared "timestamptz") by reflexivity.
  reflexivity.
Qed.

(** ** Interface names *)

Lemma append_cons (c : ascii) (s t : string) :
  String c s +:+ t = String c (s +:+ t).
Proof. reflexivity. Qed.

Lemma split_not_nil (sep : ascii) (s : string) : JS.split sep s ≠ [].
Proof.
  destruct s as [|c s]; [done|]. cbn.
  destruct (Ascii.eqb c sep); [done|]. by destruct (JS.split sep s).
Qed.

Lemma concat_cons (sep x : string) (r : list string) :
  r ≠ [] →
  String.concat sep (x :: r) = x +:+ sep +:+ String.concat sep r.
Proof. by destruct r. Qed.

Lemma concat_split (sep : ascii) (s : string) :
  String.concat (String sep "") (JS.split sep s) = s.
Proof.
  induction s as [|c s IH]; [done|]. cbn [JS.split].
  pose proof (split_not_nil sep s) as Hne.
  destruct (Ascii.eqb_spec c sep) as [->|_].
  - rewrite concat_cons, IH by done. reflexivity.
  - destruct (JS.split sep s) as [|h t]; [done|].
    destruct t as [|h' t]; [cbn in *; by rewrite IH|].
    rewrite concat_cons in IH |- * by done.
    by rewrite append_cons, IH.
Qed.

Lemma split_free (sep : ascii) (s : string) :
  Forall (fun segment => contains sep segment = false) (JS.split sep s).
Proof.
  induction s as [|c s IH]; [by repeat constructor|]. cbn [JS.split].
  destruct (Ascii.eqb c sep) eqn:Hc.
  - by constructor.
  - destruct (JS.split sep s) as [|h t]; [by repeat constructor; cbn; rewrite Hc|].
    inversion IH as [|? ? Hh Ht]; subst. constructor; [|done].
    cbn. by rewrite Hc.
Qed.

Lemma split_segment (sep : ascii) (segment : string) :
  contains sep segment = false → JS.split sep segment = [segment].
Proof.
  induction segment as [|c s IH]; [done|]. cbn.
  intros [Hc Hs]%orb_false_elim. by rewrite Hc, IH.
Qed.

Lemma split_segment_more (sep : ascii) (segment rest : string) :
  contains sep segment = false →
  JS.split sep (segment +:+ String sep rest) = segment :: JS.split sep rest.
Proof.
  induction segment as [|c s IH].
  - intros _. change ("" +:+ String sep rest) with (String sep rest).
    cbn. by rewrite Ascii.eqb_refl.
  - intros [Hc Hs]%orb_false_elim. rewrite append_cons. cbn [JS.split].
    by rewrite Hc, IH.
Qed.

Lemma split_concat (sep : ascii) (segments : list string) :
  segments ≠ [] →
  Forall (fun segment => contains sep segment = false) segments →
  JS.split sep (String.concat (String sep "") segments) = segments.
Proof.
  induction segments as [|x r IH]; [done|]. intros _ Hfree.
  inversion Hfree as [|? ? Hx Hr]; subst.
  destruct r as [|y r]; [by apply split_segment|].
  change (String.concat (String sep "") (x :: y :: r))
    with (x +:+ String sep (String.concat (String sep "") (y :: r))).
  rewrite split_segment_more by done. by rewrite IH.
Qed.

Lemma join_empty (l : list JS.utf16) : JS.join [] l = concatenate l.
Proof.
  induction l as [|x r IH]; [done|].
  destruct r as [|y r]; [symmetry; apply app_nil_r|].
  change (JS.join [] (x :: y :: r)) with (x ++ [] ++ JS.join [] (y :: r)).
  by rewrite IH.
Qed.

(** The upper-casing of the model is the one of the table. *)
Lemma upperUnit_uppercase (c : ascii) :
  JS.upperUnit c = uppercase (N_of_ascii c).
Proof. destruct c as [[] [] [] [] [] [] [] []]; reflexivity. Qed.

Lemma word_capitalize (word : string) :
  JS.toUpperCase (JS.charAt word 0) ++ JS.units (JS.slice word 1) =
    capitalize word.
Proof.
  destruct word as [|c word]; [reflexivity|].
  cbn [JS.charAt String.get JS.toUpperCase JS.slice capitalize].
  by rewrite app_nil_r, upperUnit_uppercase.
Qed.

Lemma toPascalCase_split (name : string) :
  toPascalCase name = concatenate (map capitalize (JS.split "_" name)).
Proof.
  unfold toPascalCase. rewrite join_empty. f_equal.
  apply map_ext, word_capitalize.
Qed.

(** C7. The interface name of a table is the PascalCase of its name: the
    name is cut at the underscores into its segments (there is one way to
    do so), the first character of each segment is put in upper case, the
    rest of the segment is kept, and the results are concatenated; so
    [user_accounts] gives [UserAccounts], and a first character [U+00E9],
    sharp s, micro sign or [U+00FF] gives [U+00C9], [SS], [U+039C] or
    [U+0178].  Nothing detects collisions:
    two tables whose names differ and give one interface name both get
    their interface under that name. *)
Theorem pascal_case_transform :
  (∀ name : string,
     ∃ segments,
       segmentsOf name segments ∧
       (∀ segments', segmentsOf name segments' → segments' = segments) ∧
       toPascalCase name = concatenate (map capitalize segments) ∧
       ∀ columns,
         ∃ interface warnings,
           allDeclarations [mkTable name] columns =
             Some ([interface; databaseInterface [mkTable name]], warnings) ∧
           decl_name interface = concatenate (map capitalize segments)) ∧
  toPascalCase "user_accounts" = JS.units "UserAccounts" ∧
  toPascalCase (String (ascii_of_N 233) "cole") = (201 :: JS.units "cole")%N ∧
  toPascalCase (String (ascii_of_N 223) "eta") = JS.units "SSeta" ∧
  toPascalCase (String (ascii_of_N 181) "m") = (924 :: JS.units "m")%N ∧
  toPascalCase (String (ascii_of_N 255) "") = [376%N] ∧
  (∀ columns,
     ∃ interfaces warnings,
       allDeclarations [mkTable "user__accounts"; mkTable "user_accounts"]
                       columns =
         Some (interfaces ++
               [createInterfaceDeclaration [ExportKeyword] (JS.units "Database")
                  [createPropertySignature "user__accounts"
                     (TypeReferenceNode (JS.units "UserAccounts"));
                   createPropertySignature "user_accounts"
                     (TypeReferenceNode (JS.units "UserAccounts"))]],
               warnings) ∧
       map decl_name interfaces =
         [JS.units "UserAccounts"; JS.units "UserAccounts"]).
Proof.
  split; [|repeat (split; [reflexivity|])].
  - intros name. exists (JS.split "_" name). split; [|split; [|split]].
    + split; [apply split_not_nil|]. split; [apply split_free|].
      symmetry. apply (concat_split "_").
    + intros segments' (Hne & Hfree & ->). symmetry.
      by apply (split_concat "_").
    + apply toPascalCase_split.
    + intros columns. eexists _, _.
      split; [rewrite allDeclarations_eq; reflexivity|].
      apply toPascalCase_split.
  - intros columns. eexists _, _. split; [apply allDeclarations_eq|].
    reflexivity.
Qed.

Lemma pascal_case_transform_witness :
  toPascalCase "user_accounts" = concatenate (map capitalize ["user"; "accounts"]).
Proof.
  destruct pascal_case_transform as (Hname & _).
  destruct (Hname "user_accounts") as (segments & _ & Hunique & -> & _).
  rewrite <- (Hunique ["user"; "accounts"]); [reflexivity|].
  split; [done|]. split; [by repeat constructor|reflexivity].
Defined.

(** ** Runs *)


(** * Further properties *)

(** ** Interface names, continued *)

Lemma concatenate_cons (x : JS.utf16) (l : list JS.utf16) :
  concatenate (x :: l) = x ++ concatenate l.
Proof. reflexivity. Qed.

Lemma concatenate_app (l1 l2 : list JS.utf16) :
  concatenate (l1 ++ l2) = concatenate l1 ++ concatenate l2.
Proof. apply concat_app. Qed.

Lemma units_cons (c : ascii) (s : string) :
  JS.units (String c s) = N_of_ascii c :: JS.units s.
Proof. reflexivity. Qed.

Lemma units_length (s : string) : length (JS.units s) = String.length s.
Proof.
  induction s as [|c s IH]; [done|]. rewrite units_cons. cbn. by rewrite IH.
Qed.

Lemma split_app (sep : ascii) (a b : string) :
  JS.split sep (a +:+ String sep b) = JS.split sep a ++ JS.split sep b.
Proof.
  induction a as [|c a IH].
  - change ("" +:+ String sep b) with (String sep b). cbn.
    by rewrite Ascii.eqb_refl.
  - rewrite append_cons. cbn [JS.split]. rewrite IH.
    pose proof (split_not_nil sep a) as Hne.
    destruct (Ascii.eqb c sep); [done|].
    by destruct (JS.split sep a).
Qed.

(** Four facts of the upper-casing table, each checked on the 256 code
    units. *)
Lemma underscore_unit (c : ascii) :
  Ascii.eqb c "_" = false → N_of_ascii c ≠ N_of_ascii "_".
Proof. destruct c as [[] [] [] [] [] [] [] []]; by vm_compute. Qed.

Lemma uppercase_not_underscore (c : ascii) :
  Ascii.eqb c "_" = false → N_of_ascii "_" ∉ uppercase (N_of_ascii c).
Proof.
  intros Hc. apply (bool_decide_unpack _). revert Hc.
  destruct c as [[] [] [] [] [] [] [] []]; by vm_compute.
Qed.

Lemma uppercase_length (c : ascii) :
  length (uppercase (N_of_ascii c)) =
    if N.eqb (N_of_ascii c) 223 then 2 else 1.
Proof. destruct c as [[] [] [] [] [] [] [] []]; reflexivity. Qed.

Lemma uppercase_head_fixed (c c' : ascii) :
  head (uppercase (N_of_ascii c)) = Some (N_of_ascii c') →
  uppercase (N_of_ascii c') = [N_of_ascii c'].
Proof.
  intros Hhead.
  assert (c' = ascii_of_N (default 0%N (head (uppercase (N_of_ascii c)))))
    as Hc' by (rewrite Hhead; cbn; by rewrite ascii_N_embedding).
  revert Hhead. rewrite Hc'. clear Hc'.
  destruct c as [[] [] [] [] [] [] [] []]; by vm_compute.
Qed.

Lemma units_free (s : string) :
  contains "_" s = false ↔ N_of_ascii "_" ∉ JS.units s.
Proof.
  induction s as [|c s IH]; [split; [intros _; apply not_elem_of_nil|done]|].
  rewrite units_cons, not_elem_of_cons. cbn [contains].
  rewrite orb_false_iff, IH. split.
  - intros [Hc Hs]. split; [|done]. intros Heq.
    by apply (underscore_unit c Hc).
  - intros [Hc Hs]. split; [|done].
    destruct (Ascii.eqb_spec c "_") as [->|]; [done|done].
Qed.

Lemma capitalize_free (segment : string) :
  contains "_" segment = false → N_of_ascii "_" ∉ capitalize segment.
Proof.
  destruct segment as [|c s]; [intros _; apply not_elem_of_nil|].
  cbn [contains capitalize]. intros [Hc Hs]%orb_false_elim.
  rewrite elem_of_app. intros [Hin|Hin].
  - by apply (uppercase_not_underscore c Hc).
  - by apply units_free in Hs.
Qed.

Lemma capitalized_free (segments : list string) :
  Forall (fun segment => contains "_" segment = false) segments →
  N_of_ascii "_" ∉ concatenate (map capitalize segments).
Proof.
  induction 1 as [|x l Hx Hl IH]; [apply not_elem_of_nil|].
  cbn [map]. rewrite concatenate_cons, elem_of_app.
  intros [Hin|Hin]; [by apply (capitalize_free x Hx)|done].
Qed.

Lemma capitalize_capitalized (name : string) (segments : list string) :
  JS.units name = concatenate (map capitalize segments) →
  capitalize name = JS.units name.
Proof.
  induction segments as [|x l IH].
  - destruct name; [done|discriminate].
  - cbn [map]. rewrite concatenate_cons.
    destruct x as [|c x]; [exact IH|].
    destruct name as [|c' name].
    + intros Heq. apply (f_equal length) in Heq. revert Heq.
      cbn [capitalize]. rewrite !length_app, uppercase_length.
      cbn. destruct (N.eqb _ _); lia.
    + intros Heq. cbn [capitalize]. rewrite units_cons in *.
      rewrite (uppercase_head_fixed c c'); [done|].
      apply (f_equal head) in Heq. cbn [capitalize] in Heq.
      pose proof (uppercase_length c) as Hlen.
      destruct (uppercase (N_of_ascii c)) as [|u us];
        [by destruct (N.eqb _ _)|].
      by cbn in Heq.
Qed.

Lemma toPascalCase_segment (name : string) :
  contains "_" name = false → toPascalCase name = capitalize name.
Proof.
  intros Hfree. rewrite toPascalCase_split, split_segment by done.
  cbn [map]. rewrite concatenate_cons. apply app_nil_r.
Qed.

Lemma toPascalCase_free (name : string) :
  N_of_ascii "_" ∉ toPascalCase name.
Proof.
  rewrite toPascalCase_split. apply capitalized_free, split_free.
Qed.

(** X1. An interface name has no underscore, whatever the table name. *)
Theorem interface_name_without_underscore (tables : list Table)
    (columns : list Column) :
  ∃ interfaces warnings,
    allDeclarations tables columns =
      Some (interfaces ++ [databaseInterface tables], warnings) ∧
    Forall (fun d => N_of_ascii "_" ∉ decl_name d) interfaces ∧
    ∀ name, N_of_ascii "_" ∉ toPascalCase name.
Proof.
  eexists _, _. split; [apply allDeclarations_eq|].
  split; [|apply toPascalCase_free].
  apply Forall_forall. intros d Hd. apply list_elem_of_In, in_map_iff in Hd.
  destruct Hd as (table & <- & _). apply toPascalCase_free.
Qed.

(** X2. The transform is idempotent: the PascalCase of an interface name
    is that interface name.  An interface name that is again a string of
    the catalog, with its code units below 256, is meant. *)
Theorem toPascalCase_idempotent (name name' : string) :
  JS.units name' = toPascalCase name →
  toPascalCase name' = toPascalCase name.
Proof.
  intros Hname'.
  assert (contains "_" name' = false) as Hfree.
  { apply units_free. rewrite Hname'. apply toPascalCase_free. }
  rewrite (toPascalCase_segment name' Hfree), <- Hname'.
  apply (capitalize_capitalized name' (JS.split "_" name)).
  by rewrite Hname', toPascalCase_split.
Qed.

Lemma toPascalCase_idempotent_witness :
  toPascalCase "UserAccounts" = toPascalCase "user_accounts".
Proof.
  apply (toPascalCase_idempotent "user_accounts" "UserAccounts"). reflexivity.
Defined.

(** X3. The transform distributes over an underscore: the PascalCase of
    two names joined by an underscore is the concatenation of their
    PascalCases; so an underscore at either end of a name is dropped. *)
Theorem toPascalCase_underscore (a b : string) :
  toPascalCase (a +:+ "_" +:+ b) = toPascalCase a ++ toPascalCase b ∧
  toPascalCase ("_" +:+ a) = toPascalCase a ∧
  toPascalCase (a +:+ "_") = toPascalCase a.
Proof.
  assert (∀ x y, toPascalCase (x +:+ "_" +:+ y) =
                 toPascalCase x ++ toPascalCase y) as Hjoin.
  { intros x y. rewrite !toPascalCase_split.
    change (x +:+ "_" +:+ y) with (x +:+ String "_" y).
    by rewrite split_app, map_app, concatenate_app. }
  split; [apply Hjoin|]. split.
  - exact (Hjoin "" a).
  - change (a +:+ "_") with (a +:+ "_" +:+ "").
    rewrite (Hjoin a ""). apply app_nil_r.
Qed.



(** X5. The interface name is empty exactly when the table name has no
    character other than underscores. *)
Theorem toPascalCase_empty (name : string) :
  toPascalCase name = [] ↔ onlyUnderscores name = true.
Proof.
  rewrite toPascalCase_split.
  induction name as [|c name IH]; [done|].
  cbn [JS.split onlyUnderscores].
  pose proof (split_not_nil "_" name) as Hne.
  destruct (Ascii.eqb c "_").
  - cbn [map]. rewrite concatenate_cons. exact IH.
  - destruct (JS.split "_" name) as [|h t]; [done|].
    cbn [map]. rewrite concatenate_cons. cbn [capitalize andb].
    pose proof (uppercase_length c) as Hlen.
    destruct (uppercase (N_of_ascii c)); [by destruct (N.eqb _ _)|].
    split; discriminate.
Qed.

(** X6. For a table name without underscore, the interface name is the
    table name with its first character in upper case, and is not
    shorter than the table name. *)
Theorem toPascalCase_single_segment (name : string) :
  contains "_" name = false →
  toPascalCase name = capitalize name ∧
  (String.length name ≤ length (toPascalCase name))%nat.
Proof.
  intros Hfree. rewrite toPascalCase_segment by done.
  split; [done|]. destruct name as [|c name]; [done|].
  cbn [capitalize String.length].
  rewrite length_app, units_length, uppercase_length.
  destruct (N.eqb _ _); lia.
Qed.

Lemma toPascalCase_single_segment_witness :
  toPascalCase "users" = capitalize "users" ∧
  (String.length "users" ≤ length (toPascalCase "users"))%nat.
Proof. apply (toPascalCase_single_segment "users"). reflexivity. Defined.

(** ** Type mapper, continued *)

Ltac case_eqb_spec :=
  repeat match goal with
    | |- context [String.eqb ?a ?b] =>
        destruct (String.eqb_spec a b); subst; cbn; try done
    end.

(** X7. The base type is always one of the keywords [string], [number],
    [boolean] and [unknown]; the node is that keyword or, for a nullable
    column, the two-member union of that keyword and the null marker, in
    that order.  At most one warning is written, and it does not depend
    on nullability. *)
Theorem getTypeNode_shape (dataType udtName : string) (isNullable : bool) :
  ∃ kind,
    baseKind kind = true ∧
    (getTypeNode dataType udtName isNullable).1 =
      (if isNullable then UnionTypeNode [KeywordTypeNode kind; nullMarker]
       else KeywordTypeNode kind) ∧
    (length (getTypeNode dataType udtName isNullable).2 ≤ 1)%nat ∧
    (getTypeNode dataType udtName isNullable).2 =
      (getTypeNode dataType udtName (negb isNullable)).2.
Proof.
  rewrite (getTypeNode_nullable _ _ isNullable),
          (getTypeNode_nullable _ _ (negb isNullable)).
  cbn [fst snd].
  assert (∃ kind, baseKind kind = true ∧
                  (getTypeNode dataType udtName false).1 = KeywordTypeNode kind ∧
                  (length (getTypeNode dataType udtName false).2 ≤ 1)%nat)
    as (kind & Hkind & -> & Hlen).
  { unfold getTypeNode, oneOf. cbn. case_eqb; eexists; (split; [|split]);
      try reflexivity; cbn; lia. }
  exists kind. by destruct isNullable.
Qed.

(** X8. A field is typed [unknown] without any warning exactly when the
    declared type is [json] or [jsonb] and the storage type is none of
    [uuid], [timestamptz], [timestamp], [citext]. *)
Theorem silent_unknown (dataType udtName : string) :
  getTypeNode dataType udtName false = (KeywordTypeNode UnknownKeyword, []) ↔
  oneOf identityStorageTypes udtName = false ∧
  oneOf ["json"; "jsonb"] dataType = true.
Proof.
  unfold getTypeNode, oneOf. cbn.
  case_eqb_spec; split; (done || by intros [? ?]).
Qed.

(** X9. A field is typed [number] exactly when the declared type is one
    of [integer], [smallint], [numeric], [decimal], [real], [double
    precision], and [boolean] exactly when it is [boolean], the storage
    type being in both cases none of [uuid], [timestamptz], [timestamp],
    [citext]; [bigint] is typed [string]. *)
Theorem number_and_boolean_fields (dataType udtName : string) :
  ((getTypeNode dataType udtName false).1 = KeywordTypeNode NumberKeyword ↔
   oneOf identityStorageTypes udtName = false ∧
   oneOf ["integer"; "smallint"; "numeric"; "decimal"; "real";
          "double precision"] dataType = true) ∧
  ((getTypeNode dataType udtName false).1 = KeywordTypeNode BooleanKeyword ↔
   oneOf identityStorageTypes udtName = false ∧ dataType = "boolean") ∧
  (getTypeNode "bigint" udtName false).1 = KeywordTypeNode StringKeyword.
Proof.
  split; [|split].
  - unfold getTypeNode, oneOf. cbn.
    case_eqb_spec; split; (done || by intros [? ?]).
  - unfold getTypeNode, oneOf. cbn.
    case_eqb_spec; split; (done || by intros [? ?]).
  - unfold getTypeNode, oneOf. cbn. case_eqb.
Qed.

(** X10. Outside [uuid], [timestamptz], [timestamp] and [citext] the
    storage type has no part in the type of a field: two such storage
    types give the same node for the same declared type. *)
Theorem storage_type_irrelevant (dataType udtName1 udtName2 : string)
    (isNullable : bool) :
  oneOf identityStorageTypes udtName1 = false →
  oneOf identityStorageTypes udtName2 = false →
  (getTypeNode dataType udtName1 isNullable).1 =
  (getTypeNode dataType udtName2 isNullable).1.
Proof.
  intros H1 H2.
  rewrite (getTypeNode_nullable _ udtName1), (getTypeNode_nullable _ udtName2).
  cbn [fst].
  assert ((getTypeNode dataType udtName1 false).1 =
          (getTypeNode dataType udtName2 false).1) as ->; [|done].
  revert H1 H2. unfold getTypeNode, oneOf. cbn. case_eqb.
Qed.

Lemma storage_type_irrelevant_witness :
  (getTypeNode "integer" "int4" true).1 = (getTypeNode "integer" "int8" true).1.
Proof.
  apply (storage_type_irrelevant "integer" "int4" "int8" true); reflexivity.
Defined.

(** ** Grouping, continued *)

Lemma tableColumns_lookup (columns : list Column) :
  ∃ m, tableColumns columns = Some m ∧
    ∀ k, m !! k = match columnsOf k columns with
                  | [] => None
                  | cols => Some cols
                  end.
Proof.
  destruct (tableColumns_loop_lookup columns ∅) as (m & Hm & Hlook).
  exists m. split; [done|]. intros k. rewrite Hlook, lookup_empty.
  by destruct (columnsOf k columns).
Qed.

(** X11. One turn of the grouping loop never throws: it appends the row
    to the list kept under its table name, starting that list when the
    name is new, leaves the lists of the other names as they are and
    adds that name, and no other, to the keys. *)
Theorem tableColumns_step_insert (m : gmap string (list Column))
    (column : Column) :
  ∃ m',
    tableColumns_step m column = Some m' ∧
    m' !! table_name column =
      Some (default [] (m !! table_name column) ++ [column]) ∧
    (∀ k, k ≠ table_name column → m' !! k = m !! k) ∧
    dom m' = {[table_name column]} ∪ dom m.
Proof.
  destruct (tableColumns_step_lookup m column) as (m' & Hstep & Hlook).
  exists m'. split; [done|]. split; [|split].
  - rewrite Hlook. by rewrite decide_True.
  - intros k Hk. rewrite Hlook. by rewrite decide_False.
  - apply set_eq. intros k.
    rewrite elem_of_union, elem_of_singleton, !elem_of_dom, Hlook.
    destruct (decide (table_name column = k)) as [->|Hne].
    + split; [by left|by eauto].
    + split; [by right|]. by intros [->|?].
Qed.

(** X12. The grouping loop never throws and partitions the rows: the
    keys of the [Map] are the table names that occur in the rows, no key
    holds an empty list, the list under a key is made of the rows of
    that table in the order of the query result, and every row is in the
    list of its table. *)
Theorem tableColumns_partition (columns : list Column) :
  ∃ m,
    tableColumns columns = Some m ∧
    (∀ k, k ∈ dom m ↔ ∃ c, c ∈ columns ∧ table_name c = k) ∧
    (∀ k cols, m !! k = Some cols →
       cols ≠ [] ∧ cols = filter (fun c => table_name c = k) columns) ∧
    (∀ c, c ∈ columns → ∃ cols, m !! table_name c = Some cols ∧ c ∈ cols).
Proof.
  destruct (tableColumns_lookup columns) as (m & Hm & Hlook).
  exists m. split; [done|]. split; [|split].
  - intros k. rewrite elem_of_dom, Hlook. split.
    + destruct (columnsOf k columns) as [|c cols] eqn:Hk; [by intros [? ?]|].
      intros _. exists c.
      assert (c ∈ columnsOf k columns) as Hc by (rewrite Hk; left).
      by apply list_elem_of_filter in Hc as [? ?].
    + intros (c & Hc & Hname).
      pose proof (elem_of_columnsOf columns c k Hc Hname) as Hin.
      destruct (columnsOf k columns); [by apply not_elem_of_nil in Hin|eauto].
  - intros k cols. rewrite Hlook. fold (columnsOf k columns).
    destruct (columnsOf k columns); [done|]. by intros [= <-].
  - intros c Hc.
    pose proof (elem_of_columnsOf columns c _ Hc eq_refl) as Hin.
    rewrite Hlook.
    destruct (columnsOf (table_name c) columns) eqn:Hk;
      [by apply not_elem_of_nil in Hin|eauto].
Qed.

(** ** Declarations, continued *)


(** X14. A fetched table without any row in the column query has no key
    in the [Map]; its interface is declared all the same, at its place,
    without field. *)
Theorem table_without_columns (before after : list Table) (table : Table)
    (columns : list Column) :
  (∀ c, c ∈ columns → table_name c ≠ t_table_name table) →
  ∃ grouped interfaces1 interfaces2 warnings,
    tableColumns columns = Some grouped ∧
    grouped !! t_table_name table = None ∧
    allDeclarations (before ++ table :: after) columns =
      Some (interfaces1 ++
            createInterfaceDeclaration [ExportKeyword]
              (toPascalCase (t_table_name table)) [] ::
            interfaces2 ++ [databaseInterface (before ++ table :: after)],
            warnings) ∧
    length interfaces1 = length before ∧
    length interfaces2 = length after.
Proof.
  intros Hnone.
  assert (columnsOf (t_table_name table) columns = []) as Hempty.
  { destruct (columnsOf (t_table_name table) columns) as [|c cols] eqn:Hk;
      [done|].
    assert (c ∈ columnsOf (t_table_name table) columns) as Hc
      by (rewrite Hk; left).
    apply list_elem_of_filter in Hc as [Hname Hc]. by apply Hnone in Hc. }
  destruct (tableColumns_lookup columns) as (m & Hm & Hlook).
  exists m, (map (tableInterface columns) before),
         (map (tableInterface columns) after). eexists.
  split; [done|]. split; [by rewrite Hlook, Hempty|].
  split; [|by rewrite !length_map].
  rewrite allDeclarations_eq, map_app. cbn [map].
  unfold tableInterface at 2. rewrite Hempty. cbn [map].
  by rewrite <- app_assoc.
Qed.

Lemma table_without_columns_witness :
  ∃ grouped interfaces1 interfaces2 warnings,
    tableColumns [mkColumn "users" "id" "uuid" "uuid" "NO"] = Some grouped ∧
    grouped !! "audit" = None ∧
    allDeclarations ([] ++ mkTable "audit" :: [mkTable "users"])
                    [mkColumn "users" "id" "uuid" "uuid" "NO"] =
      Some (interfaces1 ++
            createInterfaceDeclaration [ExportKeyword] (toPascalCase "audit") [] ::
            interfaces2 ++
            [databaseInterface ([] ++ mkTable "audit" :: [mkTable "users"])],
            warnings) ∧
    length interfaces1 = length (@nil Table) ∧
    length interfaces2 = length [mkTable "users"].
Proof.
  apply (table_without_columns [] [mkTable "users"] (mkTable "audit")
           [mkColumn "users" "id" "uuid" "uuid" "NO"]).
  intros c Hc. apply list_elem_of_singleton in Hc. subst c. discriminate.
Defined.

(** X15. Only the order of the rows within each fetched table counts:
    two results of the column query that give the same rows, in the same
    order, to every fetched table give the same declarations, the same
    warnings and the same run, however the rows of different tables are
    interleaved. *)
Theorem per_table_order_only (printFile : SourceFile → JS.utf16)
    (format : JS.utf16 → option JS.utf16) (now : string) (tables : list Table)
    (columns1 columns2 : list Column) :
  (∀ table, table ∈ tables →
     filter (fun c => table_name c = t_table_name table) columns1 =
     filter (fun c => table_name c = t_table_name table) columns2) →
  allDeclarations tables columns1 = allDeclarations tables columns2 ∧
  main printFile format now tables columns1 =
    main printFile format now tables columns2.
Proof.
  intros Hsame.
  assert (allDeclarations tables columns1 = allDeclarations tables columns2)
    as Heq.
  { rewrite !allDeclarations_eq. f_equal. f_equal.
    - f_equal. apply map_ext_in. intros table Hin.
      unfold tableInterface, columnsOf.
      by rewrite Hsame by by apply list_elem_of_In.
    - f_equal. apply map_ext_in. intros table Hin.
      unfold tableWarnings, columnsOf.
      by rewrite Hsame by by apply list_elem_of_In. }
  split; [done|]. unfold main, sourceFile. by rewrite Heq.
Qed.

Lemma per_table_order_only_witness :
  allDeclarations [mkTable "a"; mkTable "b"]
    [mkColumn "a" "x" "text" "text" "NO"; mkColumn "b" "y" "text" "text" "NO";
     mkColumn "a" "z" "text" "text" "NO"] =
  allDeclarations [mkTable "a"; mkTable "b"]
    [mkColumn "b" "y" "text" "text" "NO"; mkColumn "a" "x" "text" "text" "NO";
     mkColumn "a" "z" "text" "text" "NO"].
Proof.
  apply (per_table_order_only (fun _ => []) (fun s => Some s) "").
  intros table Hin.
  apply elem_of_cons in Hin as [->|Hin]; [reflexivity|].
  apply list_elem_of_singleton in Hin as ->. reflexivity.
Defined.

(** X16. The interface of a table does not depend on the other tables:
    for two lists of tables put end to end, the interfaces are those of
    the first list followed by those of the second, the warnings
    likewise, and the fields of [Database] are those for the first list
    followed by those for the second. *)
Theorem declarations_app (tables1 tables2 : list Table) (columns : list Column) :
  ∃ interfaces1 warnings1 interfaces2 warnings2,
    allDeclarations tables1 columns =
      Some (interfaces1 ++ [databaseInterface tables1], warnings1) ∧
    allDeclarations tables2 columns =
      Some (interfaces2 ++ [databaseInterface tables2], warnings2) ∧
    allDeclarations (tables1 ++ tables2) columns =
      Some ((interfaces1 ++ interfaces2) ++
            [databaseInterface (tables1 ++ tables2)],
            warnings1 ++ warnings2) ∧
    decl_members (databaseInterface (tables1 ++ tables2)) =
      decl_members (databaseInterface tables1) ++
      decl_members (databaseInterface tables2).
Proof.
  eexists _, _, _, _.
  split; [apply allDeclarations_eq|]. split; [apply allDeclarations_eq|].
  split.
  - by rewrite allDeclarations_eq, !map_app, concat_app.
  - cbn. unfold databaseProperties. by rewrite map_app.
Qed.

Lemma count_names (names : list string) (name : string) :
  NoDup names →
  sum_list (map (fun k => if decide (name = k) then 1 else 0) names) =
    if decide (name ∈ names) then 1 else 0.
Proof.
  induction 1 as [|k names Hk Hnames IH]; [done|].
  cbn [map sum_list]. rewrite IH.
  destruct (decide (name = k)) as [->|Hne].
  - rewrite decide_False by done. rewrite decide_True by left. done.
  - destruct (decide (name ∈ names)) as [Hin|Hnin].
    + rewrite decide_True by by right. done.
    + rewrite decide_False; [done|]. by intros [?|?]%elem_of_cons.
Qed.

Lemma sum_list_add {A} (f g : A → nat) (l : list A) :
  sum_list (map (fun x => f x + g x) l) =
    sum_list (map f l) + sum_list (map g l).
Proof. induction l as [|x l IH]; [done|]. cbn. lia. Qed.

Lemma columnsOf_sum (names : list string) (columns : list Column) :
  NoDup names →
  sum_list (map (fun k => length (columnsOf k columns)) names) =
    length (filter (fun c => table_name c ∈ names) columns).
Proof.
  intros Hnames. induction columns as [|c columns IH].
  - clear Hnames. induction names as [|k names IHn]; [done|].
    cbn [map sum_list]. by rewrite IHn.
  - rewrite filter_cons.
    transitivity
      (sum_list (map (fun k =>
          (if decide (table_name c = k) then 1 else 0) +
          length (columnsOf k columns)) names)).
    { f_equal. apply map_ext. intros k. unfold columnsOf.
      rewrite filter_cons. by destruct (decide (table_name c = k)). }
    rewrite sum_list_add, IH, count_names by done.
    by destruct (decide (table_name c ∈ names)).
Qed.

(** X17. When the fetched tables have distinct names, the interfaces
    have, all together, as many fields as the column query has rows of
    fetched tables: no such row is lost and none is used twice. *)
Theorem field_count (tables : list Table) (columns : list Column) :
  NoDup (map t_table_name tables) →
  ∃ interfaces warnings,
    allDeclarations tables columns =
      Some (interfaces ++ [databaseInterface tables], warnings) ∧
    sum_list (map (fun d => length (decl_members d)) interfaces) =
      length (filter (fun c => table_name c ∈ map t_table_name tables) columns).
Proof.
  intros Hnames. eexists _, _. split; [apply allDeclarations_eq|].
  rewrite <- (columnsOf_sum _ _ Hnames), !map_map. f_equal.
  apply map_ext. intros table. cbn. by rewrite length_map.
Qed.

Lemma field_count_witness :
  ∃ interfaces warnings,
    allDeclarations [mkTable "a"; mkTable "b"]
      [mkColumn "a" "x" "text" "text" "NO"; mkColumn "v" "y" "text" "text" "NO";
       mkColumn "b" "z" "text" "text" "NO"] =
      Some (interfaces ++ [databaseInterface [mkTable "a"; mkTable "b"]],
            warnings) ∧
    sum_list (map (fun d => length (decl_members d)) interfaces) =
      length (filter (fun c => table_name c ∈ map t_table_name
                                  [mkTable "a"; mkTable "b"])
                [mkColumn "a" "x" "text" "text" "NO";
                 mkColumn "v" "y" "text" "text" "NO";
                 mkColumn "b" "z" "text" "text" "NO"]).
Proof.
  apply (field_count [mkTable "a"; mkTable "b"]).
  cbn. apply NoDup_cons. split.
  - intros Hin. apply list_elem_of_singleton in Hin. discriminate.
  - apply NoDup_singleton.
Defined.

(** ** Console of a run *)





(** X19. No reference of [Database] dangles: the type of each of its
    fields is a reference to the name of an interface declared before it
    in the same file, the one of the table whose name is the key of the
    field. *)
Theorem database_references_declared (tables : list Table)
    (columns : list Column) :
  ∃ interfaces warnings,
    allDeclarations tables columns =
      Some (interfaces ++ [databaseInterface tables], warnings) ∧
    ∀ field, field ∈ decl_members (databaseInterface tables) →
      ∃ table interface,
        table ∈ tables ∧ interface ∈ interfaces ∧
        prop_name field = t_table_name table ∧
        decl_name interface = toPascalCase (t_table_name table) ∧
        prop_type field = TypeReferenceNode (decl_name interface).
Proof.
  eexists _, _. split; [apply allDeclarations_eq|].
  intros field Hfield. cbn in Hfield. unfold databaseProperties in Hfield.
  apply list_elem_of_In, in_map_iff in Hfield as (table & <- & Hin).
  exists table, (tableInterface columns table).
  split; [by apply list_elem_of_In|]. split; [|done].
  apply elem_of_map. by apply list_elem_of_In.
Qed.
